(** * Miqa Assertion Builder: the form engine of [streamlit_app.py]

    The script keeps a registry of field descriptors, lets the user pick a
    check type, walks over the merged field set showing one widget per field
    and collects the resolved values into the [output] dictionary.

    This development embeds the registry and the render loop, with the
    Streamlit widgets, the random source behind [uuid.uuid4] and the Python
    parser behind [ast.parse] taken as the environment of the script. *)

From Stdlib Require Import String Ascii List ZArith NArith Lia Bool.
Import ListNotations.
Local Open Scope string_scope.

(** ** Exceptions *)

(** The only exception the loop can raise by itself is the [KeyError] of a
    subscript on a dictionary that lacks the key. *)
Inductive Exn : Type :=
| KeyError (k : string).

Inductive Result (A : Type) : Type :=
| Ok (a : A)
| Raise (e : Exn).

Arguments Ok {A} a.
Arguments Raise {A} e.

(** ** Python dictionaries

    A [dict] keeps its keys in insertion order and assigning to a key that
    is already there replaces the value in place. *)
Module Dict.
Section Ops.
Context {V : Type}.

Definition t : Type := list (string * V).

(** [d.get(k)] *)
Fixpoint get (k : string) (d : t) : option V :=
  match d with
  | [] => None
  | (k', v) :: d' => if String.eqb k k' then Some v else get k d'
  end.

(** [d[k] = v] *)
Fixpoint set (k : string) (v : V) (d : t) : t :=
  match d with
  | [] => [(k, v)]
  | (k', v') :: d' =>
      if String.eqb k k' then (k', v) :: d' else (k', v') :: set k v d'
  end.

(** [list(d.keys())] *)
Definition keys (d : t) : list string := map fst d.

(** [k in d] *)
Definition mem (k : string) (d : t) : bool :=
  match get k d with Some _ => true | None => false end.

(** [a.update(b)]: the items of [b] assigned one after the other. *)
Definition update (a b : t) : t :=
  fold_left (fun acc kv => set (fst kv) (snd kv) acc) b a.

(** The display [{**a, **b}]: a fresh dictionary filled from [a], then
    from [b]. *)
Definition merge (a b : t) : t := update (update [] a) b.
End Ops.
Arguments t V : clear implicits.
End Dict.

(** ** Field descriptors

    A descriptor is a dictionary with a handful of known keys; each key may
    be absent.  A [default] is a constant or a callable; the callable of the
    registry draws from the random source, so a callable is a function of
    the random source and of the number of draws made so far. *)
Definition Gen (A : Type) : Type := (nat -> Z) -> nat -> A * nat.

Inductive Default : Type :=
| Const (s : string)
| Callable (f : Gen string).

Module Meta.
Record t : Type := mk {
  type : option string;
  required : option bool;
  optional : option bool;
  default : option Default;
  options : option (list string);
  value_from_parent : option bool;
  value : option string;
  placeholder : option string
}.
End Meta.

(** [{"type": ty}] and the further keys added to it. *)
Definition field (ty : string) : Meta.t :=
  Meta.mk (Some ty) None None None None None None None.

Definition with_required (b : bool) (m : Meta.t) : Meta.t :=
  Meta.mk (Meta.type m) (Some b) (Meta.optional m) (Meta.default m)
          (Meta.options m) (Meta.value_from_parent m) (Meta.value m)
          (Meta.placeholder m).

Definition with_optional (b : bool) (m : Meta.t) : Meta.t :=
  Meta.mk (Meta.type m) (Meta.required m) (Some b) (Meta.default m)
          (Meta.options m) (Meta.value_from_parent m) (Meta.value m)
          (Meta.placeholder m).

Definition with_default (d : Default) (m : Meta.t) : Meta.t :=
  Meta.mk (Meta.type m) (Meta.required m) (Meta.optional m) (Some d)
          (Meta.options m) (Meta.value_from_parent m) (Meta.value m)
          (Meta.placeholder m).

Definition with_options (l : list string) (m : Meta.t) : Meta.t :=
  Meta.mk (Meta.type m) (Meta.required m) (Meta.optional m) (Meta.default m)
          (Some l) (Meta.value_from_parent m) (Meta.value m)
          (Meta.placeholder m).

Definition with_value_from_parent (b : bool) (m : Meta.t) : Meta.t :=
  Meta.mk (Meta.type m) (Meta.required m) (Meta.optional m) (Meta.default m)
          (Meta.options m) (Some b) (Meta.value m) (Meta.placeholder m).

Definition with_value (v : string) (m : Meta.t) : Meta.t :=
  Meta.mk (Meta.type m) (Meta.required m) (Meta.optional m) (Meta.default m)
          (Meta.options m) (Meta.value_from_parent m) (Some v)
          (Meta.placeholder m).

Definition with_placeholder (p : string) (m : Meta.t) : Meta.t :=
  Meta.mk (Meta.type m) (Meta.required m) (Meta.optional m) (Meta.default m)
          (Meta.options m) (Meta.value_from_parent m) (Meta.value m) (Some p).

(** Truth value of [meta.get(flag)]: an absent key gives [None], which is
    false. *)
Definition flag (o : option bool) : bool :=
  match o with Some b => b | None => false end.

(** ** [uuid.uuid4().hex[:8]] *)

Definition hex_digit (d : Z) : ascii :=
  nth (Z.to_nat d) (list_ascii_of_string "0123456789abcdef") "0"%char.

(** ['%0<width>x' % x] for [0 <= x < 16 ^ width]. *)
Fixpoint hex_pad (width : nat) (x : Z) (acc : string) : string :=
  match width with
  | O => acc
  | S w => hex_pad w (x / 16)%Z (String (hex_digit (x mod 16)%Z) acc)
  end.

(** [UUID(bytes=os.urandom(16), version=4).int]: sixteen random bytes read
    as a big-endian number, then the variant and version bits. *)
Definition uuid4 (rand : Z) : Z :=
  let i := (rand mod 2 ^ 128)%Z in
  let i := Z.land i (Z.lnot (Z.shiftl 0xc000 48)) in
  let i := Z.lor i (Z.shiftl 0x8000 48) in
  let i := Z.land i (Z.lnot (Z.shiftl 0xf000 64)) in
  Z.lor i (Z.shiftl 4 76).

Definition hex (i : Z) : string := hex_pad 32 i "".

(** [lambda: f"assertion_{uuid.uuid4().hex[:8]}"] *)
Definition fresh_id : Gen string :=
  fun rnd n => ("assertion_" ++ substring 0 8 (hex (uuid4 (rnd n))), S n).

(** ** The registry *)

Definition core_fields : Dict.t Meta.t :=
  [ ("name", with_required true (field "string"));
    ("id", with_default (Callable fresh_id)
             (with_optional true (field "string")));
    ("failtype", with_default (Const "fail")
                   (with_options ["fail"; "warn"] (field "select")));
    ("check_type", with_value_from_parent true (field "fixed")) ].

Definition known_processors : list string :=
  [ "fasta-summary"; "bam-index-stats"; "vcf-header"; "flagstat";
    "bcftools_stats"; "miqa_steps_log"; "bam_reads_by_name";
    "bam_region_sample"; "miqa_ls_txt" ].

Record Schema : Type := { fields : Dict.t Meta.t }.

Definition schemas : Dict.t Schema :=
  [ ("postproc_results",
     {| fields :=
          [ ("processor_key",
             with_required true
               (with_options known_processors (field "select")));
            ("stat",
             with_placeholder
               "e.g. data.format == 'fasta' and data.valid_format"
               (field "expression"));
            ("postprocessed_file_pattern",
             with_placeholder "e.g. .*fasta" (field "string"));
            ("item_typ1e", with_value "outputfile" (field "fixed")) ] |});
    ("tabular_mdo_eval",
     {| fields :=
          [ ("stat",
             with_placeholder "e.g. data.rows.map('%PF').mean() > 0.9"
               (field "expression"));
            ("file_rules",
             with_placeholder "e.g. .*\.csv$" (field "string"));
            ("delimiter", with_placeholder "," (field "string"));
            ("comment_character",
             with_placeholder "#"
               (with_optional true (field "string"))) ] |}) ].

(** ** [str.strip]

    [value.strip()] is true exactly when [value] holds a character that is
    not white space.  Strings are kept as their UTF-8 bytes, so the white
    space of [str] is recognised in its encoded form: the ASCII ones
    (U+0009..U+000D, U+001C..U+0020) and U+0085, U+00A0, U+1680,
    U+2000..U+200A, U+2028, U+2029, U+202F, U+205F, U+3000. *)
Definition ascii_space (c : ascii) : bool :=
  let n := N_of_ascii c in
  ((9 <=? n) && (n <=? 13) || (28 <=? n) && (n <=? 32))%N.

Definition byte_is (n : N) (c : ascii) : bool := (N_of_ascii c =? n)%N.

Definition space3 (c d f : ascii) : bool :=
  byte_is 225 c && byte_is 154 d && byte_is 128 f
  || byte_is 226 c && byte_is 128 d
     && ((128 <=? N_of_ascii f)%N && (N_of_ascii f <=? 138)%N
         || byte_is 168 f || byte_is 169 f || byte_is 175 f)
  || byte_is 226 c && byte_is 129 d && byte_is 159 f
  || byte_is 227 c && byte_is 128 d && byte_is 128 f.

Definition space2 (c d : ascii) : bool :=
  byte_is 194 c && (byte_is 133 d || byte_is 160 d).

(** [not s.strip()] *)
Fixpoint blank (s : string) : bool :=
  match s with
  | EmptyString => true
  | String c s1 =>
      if ascii_space c then blank s1
      else
        match s1 with
        | String d s2 =>
            if space2 c d then blank s2
            else
              match s2 with
              | String f s3 => if space3 c d f then blank s3 else false
              | EmptyString => false
              end
        | EmptyString => false
        end
  end.

(** ** The environment of the script *)

(** What the user did to the widgets of the page, by widget label: the text
    left in a text widget and the option chosen in a select box.  [None]
    stands for a widget the user did not touch. *)
Record User : Type := {
  typed : string -> option string;
  picked : string -> option nat
}.

(** Outcome of [ast.parse(value, mode="eval")]: the tree is discarded, a
    [SyntaxError] carries its [msg]. *)
Inductive Parse : Type :=
| Parsed
| SyntaxError (msg : string).

Record Env : Type := {
  user : User;
  urandom : nat -> Z;
  ast_parse : string -> Parse
}.

(** The calls made on the Streamlit page, in order. *)
Inductive Call : Type :=
| Title (body : string)
| Markdown (body : string)
| TextInput (label value placeholder : string)
| TextArea (label value placeholder : string)
| Selectbox (label : string) (opts : list string) (index : nat)
| Success (body : string)
| Error (body : string).

(** State of one run: the [output] dictionary, the page and the number of
    draws made from the random source. *)
Record World : Type := {
  output : Dict.t string;
  screen : list Call;
  draws : nat
}.

Definition M (A : Type) : Type := World -> Result (A * World).

Definition ret {A} (a : A) : M A := fun w => Ok (a, w).

Definition bind {A B} (c : M A) (k : A -> M B) : M B :=
  fun w => match c w with
           | Ok (a, w1) => k a w1
           | Raise e => Raise e
           end.

Notation "x <- c ;; k" := (bind c (fun x => k))
  (at level 61, c at next level, right associativity).
Notation "c ;;; k" := (bind c (fun _ => k))
  (at level 61, right associativity).

Definition raise {A} (e : Exn) : M A := fun _ => Raise e.

(** [d[k]] on an optional key of a descriptor. *)
Definition item {A} (k : string) (o : option A) : M A :=
  match o with
  | Some a => ret a
  | None => raise (KeyError k)
  end.

Definition display (c : Call) : M unit :=
  fun w => Ok (tt, {| output := output w;
                      screen := screen w ++ [c];
                      draws := draws w |}).

(** [output[key] = v] *)
Definition store (key v : string) : M unit :=
  fun w => Ok (tt, {| output := Dict.set key v (output w);
                      screen := screen w;
                      draws := draws w |}).

(** Calling a callable default. *)
Definition call (e : Env) (f : Gen string) : M string :=
  fun w => let (s, n) := f (urandom e) (draws w) in
           Ok (s, {| output := output w; screen := screen w; draws := n |}).

(** *** Widgets

    A text widget returns what the user left in it, the initial [value] when
    untouched. *)
Definition st_text_input (e : Env) (label value placeholder : string)
  : M string :=
  display (TextInput label value placeholder) ;;;
  ret (match typed (user e) label with Some s => s | None => value end).

Definition st_text_area (e : Env) (label value placeholder : string)
  : M string :=
  display (TextArea label value placeholder) ;;;
  ret (match typed (user e) label with Some s => s | None => value end).

(** A select box returns the option the user chose, the option at [index]
    when untouched, and [None] when there is no option at all.  The page
    only offers the listed options, so a choice outside the list counts as
    untouched. *)
Definition chosen (e : Env) (label : string) (opts : list string)
  (index : nat) : nat :=
  match picked (user e) label with
  | Some i => if Nat.ltb i (length opts) then i else index
  | None => index
  end.

Definition st_selectbox (e : Env) (label : string) (opts : list string)
  (index : nat) : M (option string) :=
  display (Selectbox label opts index) ;;;
  ret (nth_error opts (chosen e label opts index)).

(** [x in l] and [l.index(x)] on a list of strings. *)
Definition contains (x : string) (l : list string) : bool :=
  existsb (String.eqb x) l.

Fixpoint index (x : string) (l : list string) : nat :=
  match l with
  | [] => 0
  | y :: l' => if String.eqb x y then 0 else S (index x l')
  end.

(** Truth value of a widget result: [None] and the empty string are
    false. *)
Definition truthy (v : option string) : bool :=
  match v with
  | Some (String _ _) => true
  | _ => false
  end.

(** [value == ""] *)
Definition is_empty_str (v : option string) : bool :=
  match v with
  | Some EmptyString => true
  | _ => false
  end.

Definition valid_note : string :=
  "✅ Syntactically valid expression (this may still not be a valid expression for your specific dataset; try the assertion to confirm).".

(** ** The render loop *)

(** Lines 55-60: [meta.get("default", "")], called when callable. *)
Definition eval_default (e : Env) (meta : Meta.t) : M string :=
  match Meta.default meta with
  | None => ret ""
  | Some (Const s) => ret s
  | Some (Callable f) => call e f
  end.

(** Lines 70-75: the syntax check of an expression field. *)
Definition check_expression (e : Env) (value : string) : M unit :=
  if blank value then ret tt
  else
    match ast_parse e value with
    | Parsed => display (Success valid_note)
    | SyntaxError msg => display (Error ("❌ Invalid expression: " ++ msg))
    end.

(** Lines 66-77: the widget of a field that is not fixed, and its value.
    [value] starts as [None] and stays so when no branch applies. *)
Definition prompt (e : Env) (key ftype default placeholder : string)
  (meta : Meta.t) : M (option string) :=
  if ftype =? "string" then
    value <- st_text_input e key default placeholder ;;
    ret (Some value)
  else if ftype =? "expression" then
    value <- st_text_area e key default placeholder ;;
    check_expression e value ;;;
    ret (Some value)
  else if ftype =? "select" then
    opts <- item "options" (Meta.options meta) ;;
    st_selectbox e key opts
      (if contains default opts then index default opts else 0)
  else ret None.

(** Line 79: the inclusion check. *)
Definition included (meta : Meta.t) (value : option string) : bool :=
  truthy value || flag (Meta.optional meta) && is_empty_str value.

(** Lines 54-80: the body of the loop for one field. *)
Definition render_field (e : Env) (check_type key : string) (meta : Meta.t)
  : M unit :=
  ftype <- item "type" (Meta.type meta) ;;
  default <- eval_default e meta ;;
  let placeholder :=
    match Meta.placeholder meta with Some p => p | None => "" end in
  if ftype =? "fixed" then
    v <- (if flag (Meta.value_from_parent meta) then ret check_type
          else item "value" (Meta.value meta)) ;;
    store key v
  else
    value <- prompt e key ftype default placeholder meta ;;
    if included meta value
    then store key (match value with Some s => s | None => "" end)
    else ret tt.

(** Line 53: [for key, meta in fields.items()]. *)
Fixpoint render_loop (e : Env) (check_type : string)
  (fs : Dict.t Meta.t) : M unit :=
  match fs with
  | [] => ret tt
  | (key, meta) :: fs' =>
      render_field e check_type key meta ;;;
      render_loop e check_type fs'
  end.

(** Line 47: [{**core_fields, **schemas[check_type]["fields"]}]. *)
Definition merged_fields (check_type : string) : Result (Dict.t Meta.t) :=
  match Dict.get check_type schemas with
  | Some s => Ok (Dict.merge core_fields (fields s))
  | None => Raise (KeyError check_type)
  end.

(** The world at the top of the script. *)
Definition blank_page : World :=
  {| output := []; screen := []; draws := 0 |}.

(** Line 50: [output = {}]. *)
Definition reset_output : M unit :=
  fun w => Ok (tt, {| output := []; screen := screen w; draws := draws w |}).

(** Lines 42-80: the script down to the end of the loop.  It returns the
    selected check type. *)
Definition script (e : Env) : M string :=
  display (Title "🧪 Miqa Assertion Builder") ;;;
  sel <- st_selectbox e "Select Assertion Type" (Dict.keys schemas) 0 ;;
  check_type <- item "None" sel ;;
  fs <- (fun w => match merged_fields check_type with
                  | Ok fs => Ok (fs, w)
                  | Raise x => Raise x
                  end) ;;
  reset_output ;;;
  display (Markdown "#### ✍️ Configure Your Test") ;;;
  render_loop e check_type fs ;;;
  ret check_type.

(** One run of the page: the Output Document of a run that did not raise. *)
Definition run (e : Env) : Result (string * World) := script e blank_page.

(** ** A reference fragment of the Python expression grammar

    [ast.parse] belongs to the Python run time, not to the script, and the
    loop only looks at whether it raises [SyntaxError].  The recogniser
    below decides that question for a fragment of the expression grammar of
    the language reference: names, decimal numbers, plain quoted strings,
    [None]/[True]/[False], attribute access, calls with positional
    arguments, subscripts, parenthesised forms and tuples, list displays,
    the unary and binary operators, comparisons, [not]/[and]/[or] and the
    conditional expression.  On anything else (lambda, comprehensions,
    slices, keyword or starred arguments, string prefixes and escapes,
    other number forms, leading white space, long inputs) it gives no
    verdict. *)
Module PyExpr.

Inductive Verdict (A : Type) : Type :=
| Yes (a : A)
| No
| Unknown.
Arguments Yes {A} a.
Arguments No {A}.
Arguments Unknown {A}.

Definition andThen {A B} (v : Verdict A) (k : A -> Verdict B) : Verdict B :=
  match v with
  | Yes a => k a
  | No => No
  | Unknown => Unknown
  end.

Inductive Tok : Type :=
| Name | Number | Str | Const
| KOr | KAnd | KNot | KIn | KIs | KIf | KElse
| LPar | RPar | LSqb | RSqb | Comma | Dot
| Bin (level : nat)
| Plus | Minus | Star | Pow | Tilde.

Definition is_digit (c : ascii) : bool :=
  let n := N_of_ascii c in ((48 <=? n) && (n <=? 57))%N.

Definition is_alpha (c : ascii) : bool :=
  let n := N_of_ascii c in
  ((65 <=? n) && (n <=? 90) || (97 <=? n) && (n <=? 122) || (n =? 95))%N.

Definition is_quote (c : ascii) : bool :=
  let n := N_of_ascii c in ((n =? 34) || (n =? 39))%N.

(** The longest prefix of [s] made of characters satisfying [p], and the
    rest. *)
Fixpoint span (p : ascii -> bool) (s : string) : string * string :=
  match s with
  | String c s' =>
      if p c then let (a, b) := span p s' in (String c a, b)
      else (EmptyString, s)
  | EmptyString => (EmptyString, EmptyString)
  end.

Definition starts_with (p : ascii -> bool) (s : string) : bool :=
  match s with
  | String c _ => p c
  | EmptyString => false
  end.

(** Keywords of the language that the fragment leaves out. *)
Definition other_keywords : list string :=
  [ "lambda"; "yield"; "await"; "async"; "for"; "while"; "def"; "class";
    "return"; "import"; "from"; "as"; "with"; "try"; "except"; "finally";
    "raise"; "pass"; "break"; "continue"; "del"; "global"; "nonlocal";
    "assert"; "elif" ].

Definition word (w : string) : Verdict Tok :=
  if w =? "or" then Yes KOr
  else if w =? "and" then Yes KAnd
  else if w =? "not" then Yes KNot
  else if w =? "in" then Yes KIn
  else if w =? "is" then Yes KIs
  else if w =? "if" then Yes KIf
  else if w =? "else" then Yes KElse
  else if (w =? "None") || (w =? "True") || (w =? "False") then Yes Const
  else if existsb (String.eqb w) other_keywords then Unknown
  else Yes Name.

(** The text after an opening quote [q]: up to the closing quote. *)
Fixpoint string_body (q : ascii) (s : string) : Verdict string :=
  match s with
  | EmptyString => No
  | String c s' =>
      if Ascii.eqb c q then Yes s'
      else if (N_of_ascii c =? 92)%N || (N_of_ascii c <? 32)%N
              || (127 <=? N_of_ascii c)%N
      then Unknown
      else string_body q s'
  end.

Definition punct (c d : ascii) : Verdict (Tok * bool) :=
  let two (t : Tok) := Yes (t, true) in
  let one (t : Tok) := Yes (t, false) in
  let c := N_of_ascii c in
  let d := N_of_ascii d in
  (if (c =? 42) && (d =? 42) then two Pow
   else if (c =? 47) && (d =? 47) then two (Bin 9)
   else if (c =? 60) && (d =? 60) then two (Bin 7)
   else if (c =? 62) && (d =? 62) then two (Bin 7)
   else if (c =? 60) && (d =? 61) then two (Bin 3)
   else if (c =? 62) && (d =? 61) then two (Bin 3)
   else if (c =? 61) && (d =? 61) then two (Bin 3)
   else if (c =? 33) && (d =? 61) then two (Bin 3)
   else if c =? 60 then one (Bin 3)
   else if c =? 62 then one (Bin 3)
   else if c =? 124 then one (Bin 4)
   else if c =? 94 then one (Bin 5)
   else if c =? 38 then one (Bin 6)
   else if c =? 43 then one Plus
   else if c =? 45 then one Minus
   else if c =? 42 then one Star
   else if c =? 47 then one (Bin 9)
   else if c =? 37 then one (Bin 9)
   else if c =? 64 then one (Bin 9)
   else if c =? 126 then one Tilde
   else if c =? 40 then one LPar
   else if c =? 41 then one RPar
   else if c =? 91 then one LSqb
   else if c =? 93 then one RSqb
   else if c =? 44 then one Comma
   else if c =? 46 then (if (48 <=? d) && (d <=? 57) then Unknown
                         else one Dot)
   else Unknown)%N.

(** A decimal number [digits] or [digits.digits] that ends the run of
    number characters. *)
Definition number (s : string) : Verdict string :=
  let (int, r) := span is_digit s in
  if starts_with (Ascii.eqb "0") int && Nat.ltb 1 (String.length int)
  then Unknown
  else
    match r with
    | String "." r1 =>
        let (frac, r2) := span is_digit r1 in
        match frac with
        | EmptyString => Unknown
        | _ => if starts_with (fun c => is_alpha c || Ascii.eqb c ".") r2
               then Unknown else Yes r2
        end
    | _ => if starts_with is_alpha r then Unknown else Yes r
    end.

Fixpoint lex (fuel : nat) (s : string) : Verdict (list Tok) :=
  match fuel with
  | O => Unknown
  | S fuel =>
      match s with
      | EmptyString => Yes []
      | String c s' =>
          if (N_of_ascii c =? 32)%N || (N_of_ascii c =? 9)%N
          then lex fuel s'
          else if is_alpha c then
            let (w, r) := span (fun x => is_alpha x || is_digit x) s in
            if starts_with is_quote r then Unknown
            else andThen (word w) (fun t =>
                 andThen (lex fuel r) (fun ts => Yes (t :: ts)))
          else if is_digit c then
            andThen (number s) (fun r =>
            andThen (lex fuel r) (fun ts => Yes (Number :: ts)))
          else if is_quote c then
            if starts_with (Ascii.eqb c) s'
               && starts_with (Ascii.eqb c) (substring 1 1 s')
            then Unknown
            else
              match string_body c s' with
              | Yes r => andThen (lex fuel r) (fun ts => Yes (Str :: ts))
              | No => No
              | Unknown => Unknown
              end
          else
            let d := match s' with String d _ => d | _ => " "%char end in
            andThen (punct c d) (fun td =>
              let r := if snd td then substring 1 (String.length s') s'
                       else s' in
              andThen (lex fuel r) (fun ts => Yes (fst td :: ts)))
      end
  end.

(** Non-terminals.  [Level l] is the binary level [l] of the grammar:
    0 [or], 1 [and], 2 [not], 3 comparison, 4 [|], 5 [^], 6 [&],
    7 shifts, 8 sums, 9 terms, 10 factor; [Tail l] is the run of
    operator/operand pairs that follows the first operand of level [l]. *)
Inductive NT : Type :=
| Expression | Level (l : nat) | Tail (l : nat)
| Power | Primary | Trailers | Atom | Strings
| Items | Close (t : Tok).

Definition tok_eqb (a b : Tok) : bool :=
  match a, b with
  | RPar, RPar | RSqb, RSqb => true
  | _, _ => false
  end.

(** The tokens after a binary operator of level [l], if one is next. *)
Definition strip_op (l : nat) (ts : list Tok) : option (list Tok) :=
  match ts with
  | KOr :: r => if Nat.eqb l 0 then Some r else None
  | KAnd :: r => if Nat.eqb l 1 then Some r else None
  | KNot :: KIn :: r => if Nat.eqb l 3 then Some r else None
  | KIs :: KNot :: r => if Nat.eqb l 3 then Some r else None
  | KIs :: r => if Nat.eqb l 3 then Some r else None
  | KIn :: r => if Nat.eqb l 3 then Some r else None
  | Bin l' :: r => if Nat.eqb l l' then Some r else None
  | Plus :: r | Minus :: r => if Nat.eqb l 8 then Some r else None
  | Star :: r => if Nat.eqb l 9 then Some r else None
  | _ => None
  end.

Fixpoint parse (fuel : nat) (nt : NT) (ts : list Tok)
  : Verdict (list Tok) :=
  match fuel with
  | O => Unknown
  | S fuel =>
      match nt with
      | Expression =>
          andThen (parse fuel (Level 0) ts) (fun r =>
            match r with
            | KIf :: r1 =>
                andThen (parse fuel (Level 0) r1) (fun r2 =>
                  match r2 with
                  | KElse :: r3 => parse fuel Expression r3
                  | _ => No
                  end)
            | _ => Yes r
            end)
      | Level 2 =>
          match ts with
          | KNot :: r => parse fuel (Level 2) r
          | _ => parse fuel (Level 3) ts
          end
      | Level 10 =>
          match ts with
          | Plus :: r | Minus :: r | Tilde :: r => parse fuel (Level 10) r
          | _ => parse fuel Power ts
          end
      | Level l =>
          andThen (parse fuel (Level (S l)) ts) (parse fuel (Tail l))
      | Tail l =>
          match strip_op l ts with
          | Some r =>
              andThen (parse fuel (Level (S l)) r) (parse fuel (Tail l))
          | None => Yes ts
          end
      | Power =>
          andThen (parse fuel Primary ts) (fun r =>
            match r with
            | Pow :: r1 => parse fuel (Level 10) r1
            | _ => Yes r
            end)
      | Primary => andThen (parse fuel Atom ts) (parse fuel Trailers)
      | Trailers =>
          match ts with
          | Dot :: Name :: r => parse fuel Trailers r
          | Dot :: _ => No
          | LPar :: RPar :: r => parse fuel Trailers r
          | LPar :: r =>
              andThen (parse fuel Items r) (fun r1 =>
              andThen (parse fuel (Close RPar) r1) (parse fuel Trailers))
          | LSqb :: r =>
              andThen (parse fuel Items r) (fun r1 =>
              andThen (parse fuel (Close RSqb) r1) (parse fuel Trailers))
          | _ => Yes ts
          end
      | Atom =>
          match ts with
          | Name :: r | Number :: r | Const :: r => Yes r
          | Str :: r => parse fuel Strings r
          | LPar :: RPar :: r => Yes r
          | LPar :: r =>
              andThen (parse fuel Items r) (parse fuel (Close RPar))
          | LSqb :: RSqb :: r => Yes r
          | LSqb :: r =>
              andThen (parse fuel Items r) (parse fuel (Close RSqb))
          | Star :: _ | Pow :: _ | Dot :: _ => Unknown
          | _ => No
          end
      | Strings =>
          match ts with
          | Str :: r => parse fuel Strings r
          | _ => Yes ts
          end
      | Items =>
          andThen (parse fuel Expression ts) (fun r =>
            match r with
            | Comma :: [] => Yes []
            | Comma :: RPar :: r1 => Yes (RPar :: r1)
            | Comma :: RSqb :: r1 => Yes (RSqb :: r1)
            | Comma :: r1 => parse fuel Items r1
            | _ => Yes r
            end)
      | Close t =>
          match ts with
          | t' :: r => if tok_eqb t t' then Yes r else No
          | [] => No
          end
      end
  end.

(** Does [source] parse as an expression?  [Some true]: yes;
    [Some false]: it is a syntax error; [None]: outside the fragment. *)
Definition recognise (source : string) : option bool :=
  if starts_with (fun c => (N_of_ascii c =? 32)%N || (N_of_ascii c =? 9)%N)
       source
  then None
  else
    match lex (S (String.length source)) source with
    | Yes ts =>
        if Nat.ltb 100 (length ts) then None
        else
          match parse (20 * length ts + 20) Items ts with
          | Yes [] => match ts with [] => Some false | _ => Some true end
          | Yes (_ :: _) => Some false
          | No => Some false
          | Unknown => None
          end
    | No => Some false
    | Unknown => None
    end.

End PyExpr.


(** The value a field resolves to (lines 54-77): the literal or the parent
    selection for a fixed field, the widget's result otherwise. *)
Definition resolve (e : Env) (check_type key : string) (meta : Meta.t)
  : M (option string) :=
  ftype <- item "type" (Meta.type meta) ;;
  default <- eval_default e meta ;;
  let placeholder :=
    match Meta.placeholder meta with Some p => p | None => "" end in
  if ftype =? "fixed" then
    v <- (if flag (Meta.value_from_parent meta) then ret check_type
          else item "value" (Meta.value meta)) ;;
    ret (Some v)
  else prompt e key ftype default placeholder meta.

Definition is_fixed (meta : Meta.t) : bool :=
  match Meta.type meta with
  | Some t => t =? "fixed"
  | None => false
  end.

(** The check type the select box at the top of the page returns. *)
Definition selection (e : Env) : option string :=
  nth_error (Dict.keys schemas)
    (chosen e "Select Assertion Type" (Dict.keys schemas) 0).

(** The world in which the loop starts. *)
Definition form_start : World :=
  {| output := [];
     screen := [ Title "🧪 Miqa Assertion Builder";
                 Selectbox "Select Assertion Type" (Dict.keys schemas) 0;
                 Markdown "#### ✍️ Configure Your Test" ];
     draws := 0 |}.

(** The pattern [assertion_] followed by eight hexadecimal characters. *)
Definition is_hex (c : ascii) : Prop :=
  In c (list_ascii_of_string "0123456789abcdef").

Definition assertion_id (v : string) : Prop :=
  exists h, v = "assertion_" ++ h /\ String.length h = 8
            /\ Forall is_hex (list_ascii_of_string h).

(** A value that is not empty, in the sense of line 79. *)
Definition non_empty (value : option string) : Prop :=
  exists s, value = Some s /\ s <> "".

(** The inclusion rule in the words of the specification. *)
Definition rule (meta : Meta.t) (value : option string) : Prop :=
  non_empty value \/ (Meta.optional meta = Some true /\ value = Some "").

(** A schema on which no subscript of the loop can fail. *)
Definition well_formed (meta : Meta.t) : bool :=
  match Meta.type meta with
  | None => false
  | Some t =>
      if t =? "fixed"
      then flag (Meta.value_from_parent meta)
           || match Meta.value meta with Some _ => true | None => false end
      else if t =? "select"
      then match Meta.options meta with Some _ => true | None => false end
      else true
  end.


(** ** Definitions used by the statements and their proofs *)

(** No string occurs twice in [l]. *)
Fixpoint distinct (l : list string) : bool :=
  match l with
  | [] => true
  | x :: l' => negb (contains x l') && distinct l'
  end.

(** A parser for the concrete pages below: the reference fragment,
    rejecting what it has no verdict on. *)
Definition fragment_parser (source : string) : Parse :=
  match PyExpr.recognise source with
  | Some true => Parsed
  | _ => SyntaxError "invalid syntax"
  end.

(** A concrete page: the user typed the name [t1], chose the processor
    [flagstat] and left the rest alone. *)
Definition demo_user : User :=
  {| typed := fun label => if label =? "name" then Some "t1" else None;
     picked := fun label => if label =? "processor_key" then Some 3
                            else None |}.

Definition demo_env : Env :=
  {| user := demo_user;
     urandom := fun n => (0x0123456789abcdef0123456789abcdef + Z.of_nat n)%Z;
     ast_parse := fragment_parser |}.

(** The world a loop ends in. *)
Definition final_world (r : Result (unit * World)) : World :=
  match r with
  | Ok (_, w) => w
  | Raise _ => blank_page
  end.

Definition demo_fields : Dict.t Meta.t :=
  match merged_fields "postproc_results" with
  | Ok fs => fs
  | Raise _ => []
  end.

Definition demo_world : World :=
  final_world (render_loop demo_env "postproc_results" demo_fields form_start).







(** ** After the loop: the identifiers of the embedded component *)

(** [str(u)] for a UUID [u] with integer value [i]: the thirty-two
    hexadecimal digits in groups of 8, 4, 4, 4 and 12, joined by dashes. *)
Definition uuid_str (i : Z) : string :=
  let h := hex i in
  substring 0 8 h ++ "-" ++ substring 8 4 h ++ "-" ++ substring 12 4 h
  ++ "-" ++ substring 16 4 h ++ "-" ++ substring 20 12 h.

(** [s.replace(old, new)] for a pattern [old] of one character. *)
Fixpoint replace_char (old : ascii) (new : string) (s : string) : string :=
  match s with
  | EmptyString => EmptyString
  | String c s' =>
      if Ascii.eqb c old then new ++ replace_char old new s'
      else String c (replace_char old new s')
  end.

(** Line 90: [str(uuid.uuid4()).replace("-", "")], from one random draw. *)
Definition unique_id (rand : Z) : string :=
  replace_char "-" "" (uuid_str (uuid4 rand)).

(** Lines 91-92. *)
Definition text_id (unique_id : string) : string := "text_" ++ unique_id.
Definition toast_id (unique_id : string) : string := "toast_" ++ unique_id.


(** A lower-case letter, a digit or an underscore. *)
Definition is_name_char (c : ascii) : Prop :=
  In c (list_ascii_of_string "abcdefghijklmnopqrstuvwxyz0123456789_").

(** ** Descriptors and the page, for the statements about the loop *)



(** The kinds that show a widget. *)
Definition prompted (meta : Meta.t) : bool :=
  match Meta.type meta with
  | Some t => (t =? "string") || (t =? "expression") || (t =? "select")
  | None => false
  end.

(** The label of a widget call; the other calls have none. *)
Definition widget_label (c : Call) : option string :=
  match c with
  | TextInput l _ _ | TextArea l _ _ | Selectbox l _ _ => Some l
  | _ => None
  end.

Fixpoint labels (calls : list Call) : list string :=
  match calls with
  | [] => []
  | c :: calls' =>
      match widget_label c with
      | Some l => l :: labels calls'
      | None => labels calls'
      end
  end.



(** ** Dictionaries: lookup after assignment and after merge *)
Section DictFacts.
Context {V : Type}.
Implicit Types (d a b : Dict.t V) (k : string) (v : V).
Local Open Scope list_scope.

Lemma get_set_same k v d : Dict.get k (Dict.set k v d) = Some v.
Proof.
  induction d as [|[k' v'] d IH]; simpl.
  - now rewrite String.eqb_refl.
  - destruct (String.eqb k k') eqn:E; simpl; rewrite E; auto.
Qed.

Lemma get_set_other k k' v d :
  k <> k' -> Dict.get k' (Dict.set k v d) = Dict.get k' d.
Proof.
  intros Hne. induction d as [|[k1 v1] d IH]; simpl.
  - destruct (String.eqb k' k) eqn:E; auto.
    apply String.eqb_eq in E. congruence.
  - destruct (String.eqb k k1) eqn:E; simpl.
    + apply String.eqb_eq in E. subst k1.
      destruct (String.eqb k' k) eqn:E'; [|reflexivity].
      apply String.eqb_eq in E'. congruence.
    + now rewrite IH.
Qed.

Lemma get_none k d : Dict.get k d = None <-> ~ In k (Dict.keys d).
Proof.
  induction d as [|[k1 v1] d IH]; simpl.
  - tauto.
  - destruct (String.eqb k k1) eqn:E.
    + apply String.eqb_eq in E. split; [discriminate|].
      intros H. exfalso. apply H. left. now symmetry.
    + apply String.eqb_neq in E. rewrite IH. intuition congruence.
Qed.

Lemma get_some_in k v d : Dict.get k d = Some v -> In (k, v) d.
Proof.
  induction d as [|[k1 v1] d IH]; simpl; [discriminate|].
  destruct (String.eqb k k1) eqn:E.
  - apply String.eqb_eq in E. intros [= ->]. subst. now left.
  - auto.
Qed.

Lemma mem_true k d : Dict.mem k d = true <-> In k (Dict.keys d).
Proof.
  unfold Dict.mem. destruct (Dict.get k d) eqn:E.
  - split; auto. intros _. apply get_some_in in E.
    change k with (fst (k, v)). now apply in_map.
  - apply get_none in E. split; [discriminate | contradiction].
Qed.

Lemma set_fresh k v d : ~ In k (Dict.keys d) -> Dict.set k v d = d ++ [(k, v)].
Proof.
  induction d as [|[k1 v1] d IH]; simpl; auto.
  intros H. destruct (String.eqb k k1) eqn:E.
  - apply String.eqb_eq in E. exfalso. apply H. left. now symmetry.
  - rewrite IH; auto.
Qed.

Lemma keys_set_present k v d :
  In k (Dict.keys d) -> Dict.keys (Dict.set k v d) = Dict.keys d.
Proof.
  induction d as [|[k1 v1] d IH]; simpl; [tauto|].
  intros H. destruct (String.eqb k k1) eqn:E; simpl; auto.
  apply String.eqb_neq in E. rewrite IH; auto. intuition congruence.
Qed.

Lemma keys_set k v d :
  Dict.keys (Dict.set k v d)
  = if Dict.mem k d then Dict.keys d else Dict.keys d ++ [k].
Proof.
  destruct (Dict.mem k d) eqn:E.
  - apply keys_set_present. now apply mem_true.
  - rewrite set_fresh.
    + unfold Dict.keys. now rewrite map_app.
    + intros H. apply mem_true in H. congruence.
Qed.

Lemma update_app a b :
  NoDup (Dict.keys (a ++ b)) -> Dict.update a b = a ++ b.
Proof.
  revert a. induction b as [|[k v] b IH]; intros a H; simpl.
  - now rewrite app_nil_r.
  - unfold Dict.update in *. simpl.
    assert (Hk : ~ In k (Dict.keys a)).
    { unfold Dict.keys in H. rewrite map_app in H. simpl in H.
      apply NoDup_remove_2 in H. intros Hin. apply H.
      apply in_or_app. now left. }
    rewrite set_fresh by exact Hk.
    rewrite IH; rewrite <- app_assoc; auto.
Qed.

Lemma update_get b : forall a k,
  NoDup (Dict.keys b) ->
  Dict.get k (Dict.update a b)
  = match Dict.get k b with Some v => Some v | None => Dict.get k a end.
Proof.
  induction b as [|[k1 v1] b IH]; intros a k H; simpl; auto.
  inversion H as [|? ? Hnot Hnd]; subst.
  unfold Dict.update in *. simpl. rewrite IH by exact Hnd.
  destruct (String.eqb k k1) eqn:E.
  - apply String.eqb_eq in E. subst k1.
    apply get_none in Hnot. rewrite Hnot. apply get_set_same.
  - apply String.eqb_neq in E.
    rewrite get_set_other by congruence. reflexivity.
Qed.

Lemma update_keys b : forall a,
  NoDup (Dict.keys b) ->
  Dict.keys (Dict.update a b)
  = Dict.keys a
    ++ filter (fun k => negb (Dict.mem k a)) (Dict.keys b).
Proof.
  induction b as [|[k1 v1] b IH]; intros a H; simpl.
  - now rewrite app_nil_r.
  - inversion H as [|? ? Hnot Hnd]; subst.
    unfold Dict.update in *. simpl. rewrite IH by exact Hnd.
    rewrite keys_set.
    assert (Hext : forall x, In x (Dict.keys b) ->
              Dict.mem x (Dict.set k1 v1 a) = Dict.mem x a).
    { intros x Hx. unfold Dict.mem. rewrite get_set_other; auto.
      intros ->. contradiction. }
    rewrite (filter_ext_in _ (fun k => negb (Dict.mem k a))).
    2:{ intros x Hx. now rewrite Hext. }
    destruct (Dict.mem k1 a); simpl; auto.
    now rewrite <- app_assoc.
Qed.

(** [{**a, **b}] : every key of [a] and of [b], the entry of [b] where
    both have one, the keys of [a] first. *)
Lemma merge_get a b k :
  NoDup (Dict.keys a) -> NoDup (Dict.keys b) ->
  Dict.get k (Dict.merge a b)
  = match Dict.get k b with Some v => Some v | None => Dict.get k a end.
Proof.
  intros Ha Hb. unfold Dict.merge.
  rewrite (update_app [] a) by exact Ha. simpl. now apply update_get.
Qed.

Lemma merge_keys a b :
  NoDup (Dict.keys a) -> NoDup (Dict.keys b) ->
  Dict.keys (Dict.merge a b)
  = Dict.keys a ++ filter (fun k => negb (Dict.mem k a)) (Dict.keys b).
Proof.
  intros Ha Hb. unfold Dict.merge.
  rewrite (update_app [] a) by exact Ha. simpl. now apply update_keys.
Qed.

Lemma merge_nodup a b :
  NoDup (Dict.keys a) -> NoDup (Dict.keys b) ->
  NoDup (Dict.keys (Dict.merge a b)).
Proof.
  intros Ha Hb. rewrite merge_keys by assumption.
  apply NoDup_app; auto.
  - now apply NoDup_filter.
  - intros x Hx Hf. apply filter_In in Hf. destruct Hf as [_ Hf].
    apply mem_true in Hx. rewrite Hx in Hf. discriminate.
Qed.
End DictFacts.

(** ** The loop, field by field *)

Ltac unfold_m :=
  unfold st_text_input, st_text_area, st_selectbox, check_expression,
    eval_default, call, store, display, item, raise, bind, ret in *.

Ltac break_match :=
  match goal with
  | |- context [match ?x with _ => _ end] => destruct x eqn:?
  | H : context [match ?x with _ => _ end] |- _ => destruct x eqn:?
  end.

Ltac inv_ok :=
  repeat match goal with
         | H : Ok _ = Ok _ |- _ => inversion H; clear H; subst
         | H : Raise _ = Ok _ |- _ => discriminate H
         | H : (_, _) = (_, _) |- _ => inversion H; clear H; subst
         end.

(** The body of the loop is [resolve] followed by the assignment to
    [output], which a fixed field always makes and another field makes when
    line 79 lets it. *)
Lemma render_field_resolve e ct key meta w :
  render_field e ct key meta w
  = match resolve e ct key meta w with
    | Ok (value, w1) =>
        if is_fixed meta || included meta value
        then store key (match value with Some s => s | None => "" end) w1
        else Ok (tt, w1)
    | Raise x => Raise x
    end.
Proof.
  unfold render_field, resolve, is_fixed, bind, item, raise, ret.
  destruct (Meta.type meta) as [t|]; [|reflexivity].
  destruct (eval_default e meta w) as [[d w1]|]; [|reflexivity].
  destruct (t =? "fixed") eqn:Et.
  - destruct (flag (Meta.value_from_parent meta)); [reflexivity|].
    destruct (Meta.value meta); reflexivity.
  - destruct (prompt e key t d _ meta w1) as [[v w2]|]; [|reflexivity].
    simpl. destruct (included meta v); reflexivity.
Qed.

(** Resolving a field leaves [output] alone and only adds to the page. *)
Lemma resolve_footprint e ct key meta w value w1 :
  resolve e ct key meta w = Ok (value, w1) ->
  output w1 = output w /\ exists calls, screen w1 = (screen w ++ calls)%list.
Proof.
  unfold resolve, prompt. unfold_m. intros H.
  repeat break_match; subst; inv_ok; try discriminate;
    simpl; (split; [reflexivity|]);
    first [ now (exists []; rewrite app_nil_r)
          | rewrite <- ?app_assoc; eexists; reflexivity ].
Qed.

Lemma included_some meta value :
  included meta value = true -> exists s, value = Some s.
Proof.
  unfold included, truthy, is_empty_str.
  destruct value as [s|]; [eauto|].
  simpl. rewrite andb_false_r. discriminate.
Qed.

Lemma resolve_fixed_some e ct key meta w value w1 :
  is_fixed meta = true ->
  resolve e ct key meta w = Ok (value, w1) -> exists s, value = Some s.
Proof.
  unfold is_fixed, resolve. unfold_m. intros Hf H.
  destruct (Meta.type meta) as [t|]; [|discriminate]. rewrite Hf in H.
  repeat break_match; subst; inv_ok; try discriminate; eauto.
Qed.

(** What one pass of the body does to the entry of a key. *)
Lemma render_field_get e ct key meta w w' :
  render_field e ct key meta w = Ok (tt, w') ->
  exists value w1,
    resolve e ct key meta w = Ok (value, w1)
    /\ Dict.get key (output w')
       = (if is_fixed meta || included meta value then value
          else Dict.get key (output w))
    /\ (forall k, k <> key ->
          Dict.get k (output w') = Dict.get k (output w))
    /\ screen w' = screen w1 /\ draws w' = draws w1.
Proof.
  rewrite render_field_resolve.
  destruct (resolve e ct key meta w) as [[value w1]|] eqn:R; [|discriminate].
  destruct (resolve_footprint _ _ _ _ _ _ _ R) as [Hout _].
  intros H. exists value, w1. split; [reflexivity|].
  destruct (is_fixed meta || included meta value) eqn:B.
  - unfold store in H. injection H as <-. simpl. rewrite Hout.
    assert (Hs : exists s, value = Some s).
    { apply orb_true_iff in B. destruct B as [B|B].
      - eapply resolve_fixed_some; eauto.
      - eapply included_some; eauto. }
    destruct Hs as [s ->]. repeat split.
    + apply get_set_same.
    + intros k Hk. apply get_set_other. congruence.
  - injection H as <-. rewrite Hout. repeat split.
Qed.

Lemma render_loop_app e ct pre post w :
  render_loop e ct (pre ++ post)%list w
  = match render_loop e ct pre w with
    | Ok (_, w1) => render_loop e ct post w1
    | Raise x => Raise x
    end.
Proof.
  revert w. induction pre as [|[k m] pre IH]; intros w; simpl.
  - reflexivity.
  - unfold bind. destruct (render_field e ct k m w) as [[[] w1]|]; auto.
Qed.

(** The loop does not touch the entries of keys it does not visit. *)
Lemma loop_frame e ct fs : forall w w' k,
  ~ In k (Dict.keys fs) ->
  render_loop e ct fs w = Ok (tt, w') ->
  Dict.get k (output w') = Dict.get k (output w).
Proof.
  induction fs as [|[k1 m1] fs IH]; intros w w' k Hk H; simpl in *.
  - unfold ret in H. now injection H as <-.
  - unfold bind in H.
    destruct (render_field e ct k1 m1 w) as [[[] w1]|] eqn:F; [|discriminate].
    apply render_field_get in F. destruct F as (v & w2 & _ & _ & Hfr & _).
    rewrite (IH w1 w' k); auto.
Qed.

(** With distinct keys, the entry of a key in the final document is the
    one its own pass left. *)
Lemma loop_at e ct pre key meta post w w' :
  NoDup (Dict.keys (pre ++ (key, meta) :: post)%list) ->
  render_loop e ct (pre ++ (key, meta) :: post)%list w = Ok (tt, w') ->
  exists wk value wk1 wk2,
    render_loop e ct pre w = Ok (tt, wk)
    /\ resolve e ct key meta wk = Ok (value, wk1)
    /\ render_field e ct key meta wk = Ok (tt, wk2)
    /\ render_loop e ct post wk2 = Ok (tt, w')
    /\ Dict.get key (output wk) = Dict.get key (output w)
    /\ Dict.get key (output w')
       = (if is_fixed meta || included meta value then value
          else Dict.get key (output w)).
Proof.
  intros Hnd Hrun.
  unfold Dict.keys in Hnd. rewrite map_app in Hnd. simpl in Hnd.
  pose proof (NoDup_remove_2 _ _ _ Hnd) as Hnot.
  rewrite render_loop_app in Hrun.
  destruct (render_loop e ct pre w) as [[[] wk]|] eqn:Hpre; [|discriminate].
  simpl in Hrun. unfold bind in Hrun.
  destruct (render_field e ct key meta wk) as [[[] wk2]|] eqn:F;
    [|discriminate].
  pose proof F as F'. apply render_field_get in F.
  destruct F as (value & wk1 & R & Hget & _ & _ & _).
  assert (Hk : Dict.get key (output wk) = Dict.get key (output w)).
  { apply (loop_frame e ct pre w wk key); auto.
    intros Hk. apply Hnot. apply in_or_app. now left. }
  exists wk, value, wk1, wk2. repeat split; auto.
  rewrite (loop_frame e ct post wk2 w' key); auto.
  - rewrite Hget. now rewrite Hk.
  - intros Hk'. apply Hnot. apply in_or_app. now right.
Qed.

Lemma loop_reaches e ct fs w w' key meta :
  NoDup (Dict.keys fs) ->
  render_loop e ct fs w = Ok (tt, w') ->
  In (key, meta) fs ->
  exists pre post wk value wk1,
    fs = (pre ++ (key, meta) :: post)%list
    /\ render_loop e ct pre w = Ok (tt, wk)
    /\ resolve e ct key meta wk = Ok (value, wk1)
    /\ Dict.get key (output w')
       = (if is_fixed meta || included meta value then value
          else Dict.get key (output w)).
Proof.
  intros Hnd Hrun Hin.
  destruct (in_split _ _ Hin) as (pre & post & ->).
  destruct (loop_at e ct pre key meta post w w' Hnd Hrun)
    as (wk & value & wk1 & wk2 & Hpre & Hres & _ & _ & _ & Hget).
  exists pre, post, wk, value, wk1. repeat split; auto.
Qed.



(** ** The registry and the start of the script *)

Lemma contains_In x l : contains x l = true <-> In x l.
Proof.
  unfold contains. rewrite existsb_exists. split.
  - intros (y & Hy & E). apply String.eqb_eq in E. now subst.
  - intros H. exists x. split; auto. apply String.eqb_refl.
Qed.

Lemma distinct_NoDup l : distinct l = true -> NoDup l.
Proof.
  induction l as [|x l IH]; simpl; intros H; constructor.
  - apply andb_true_iff in H. destruct H as [H _].
    intros Hin. apply contains_In in Hin. rewrite Hin in H. discriminate.
  - apply IH. apply andb_true_iff in H. tauto.
Qed.

Lemma schemas_cases T s :
  Dict.get T schemas = Some s ->
  (T = "postproc_results" \/ T = "tabular_mdo_eval")
  /\ distinct (Dict.keys (fields s)) = true
  /\ distinct (Dict.keys (Dict.merge core_fields (fields s))) = true
  /\ forallb (fun kv => well_formed (snd kv))
       (Dict.merge core_fields (fields s)) = true.
Proof.
  unfold schemas. simpl.
  destruct (T =? "postproc_results") eqn:E1.
  - apply String.eqb_eq in E1. intros [= <-]. subst T.
    repeat split; auto.
  - destruct (T =? "tabular_mdo_eval") eqn:E2; [|discriminate].
    apply String.eqb_eq in E2. intros [= <-]. subst T.
    repeat split; auto.
Qed.


(** The script is the loop over the merged fields of the selected check
    type, started on the page that holds the title and the select box. *)
Lemma run_loop e ct s :
  selection e = Some ct -> Dict.get ct schemas = Some s ->
  run e
  = match render_loop e ct (Dict.merge core_fields (fields s)) form_start
    with
    | Ok (_, w) => Ok (ct, w)
    | Raise x => Raise x
    end.
Proof.
  intros Hsel Hs.
  cbv beta iota delta [run script merged_fields st_selectbox reset_output
    display item raise bind ret blank_page output screen draws app].
  change (nth_error (Dict.keys schemas) _) with (selection e).
  rewrite Hsel. cbv beta iota. rewrite Hs. cbv beta iota.
  change {| output := []; screen := _; draws := 0 |} with form_start.
  destruct (render_loop e ct _ form_start) as [[[] w]|]; reflexivity.
Qed.


(** ** Line 79 and the inclusion rule *)

Lemma included_rule meta value : included meta value = true <-> rule meta value.
Proof.
  unfold included, rule, non_empty, truthy, is_empty_str, flag.
  destruct value as [[|c s]|]; destruct (Meta.optional meta) as [[|]|];
    simpl; split; intros H; try discriminate; auto.
  all: try (right; now split).
  all: try (left; eexists; split; [reflexivity | discriminate]).
  all: destruct H as [(s' & E & Hs) | (E1 & E2)];
    try discriminate; try congruence.
Qed.

Lemma not_fixed meta :
  Meta.type meta <> Some "fixed" -> is_fixed meta = false.
Proof.
  unfold is_fixed. destruct (Meta.type meta) as [t|]; auto.
  intros H. destruct (t =? "fixed") eqn:E; auto.
  apply String.eqb_eq in E. congruence.
Qed.

(** * The claims *)

(** C1.  Inclusion rule.  In a loop over a field set with distinct keys that
    starts from an empty document, a field that is not fixed resolves to a
    value, and that value is in the Output Document exactly when it is
    non-empty, or the descriptor is marked optional and the value is the
    empty string; otherwise the document has no entry for the field. *)
Theorem inclusion_rule e ct fs w w' key meta :
  NoDup (Dict.keys fs) ->
  output w = [] ->
  render_loop e ct fs w = Ok (tt, w') ->
  In (key, meta) fs ->
  Meta.type meta <> Some "fixed" ->
  exists pre post wk value wk1,
    fs = (pre ++ (key, meta) :: post)%list
    /\ render_loop e ct pre w = Ok (tt, wk)
    /\ resolve e ct key meta wk = Ok (value, wk1)
    /\ (rule meta value -> Dict.get key (output w') = value)
    /\ (~ rule meta value -> Dict.get key (output w') = None).
Proof.
  intros Hnd Hw Hrun Hin Hty.
  destruct (loop_reaches e ct fs w w' key meta Hnd Hrun Hin)
    as (pre & post & wk & value & wk1 & Hfs & Hpre & Hres & Hget).
  exists pre, post, wk, value, wk1. repeat split; auto.
  - intros Hr. apply included_rule in Hr.
    rewrite Hget, Hr, orb_true_r. reflexivity.
  - intros Hr. rewrite Hget, (not_fixed meta Hty). simpl.
    destruct (included meta value) eqn:E.
    + apply included_rule in E. contradiction.
    + rewrite Hw. reflexivity.
Qed.

Lemma inclusion_rule_witness :
  let stat := with_placeholder
                "e.g. data.format == 'fasta' and data.valid_format"
                (field "expression") in
  NoDup (Dict.keys demo_fields)
  /\ output form_start = []
  /\ render_loop demo_env "postproc_results" demo_fields form_start
     = Ok (tt, demo_world)
  /\ In ("stat", stat) demo_fields
  /\ Meta.type stat <> Some "fixed"
  /\ exists pre post wk value wk1,
       demo_fields = (pre ++ ("stat", stat) :: post)%list
       /\ render_loop demo_env "postproc_results" pre form_start
          = Ok (tt, wk)
       /\ resolve demo_env "postproc_results" "stat" stat wk
          = Ok (value, wk1)
       /\ (rule stat value ->
           Dict.get "stat" (output demo_world) = value)
       /\ (~ rule stat value ->
           Dict.get "stat" (output demo_world) = None).
Proof.
  intros stat.
  assert (H1 : NoDup (Dict.keys demo_fields))
    by (apply distinct_NoDup; vm_compute; reflexivity).
  assert (H2 : render_loop demo_env "postproc_results" demo_fields form_start
               = Ok (tt, demo_world)) by (vm_compute; reflexivity).
  assert (H3 : In ("stat", stat) demo_fields)
    by (apply get_some_in; reflexivity).
  assert (H4 : Meta.type stat <> Some "fixed") by (simpl; discriminate).
  split; [exact H1|]. split; [reflexivity|].
  split; [exact H2|]. split; [exact H3|]. split; [exact H4|].
  exact (inclusion_rule demo_env "postproc_results" demo_fields
           form_start demo_world "stat" stat H1 eq_refl H2 H3 H4).
Defined.

(** C2.  For every check type of the registry the merged field set is an
    ordered mapping with distinct keys: the core keys first, then the new
    keys of the type in their order; it has every core key and every key of
    the type, with the descriptor of the type wherever the type has one and
    the core descriptor elsewhere. *)
Theorem fields_merge (T : string) (s : Schema) :
  Dict.get T schemas = Some s ->
  exists fs,
    merged_fields T = Ok fs
    /\ NoDup (Dict.keys fs)
    /\ Dict.keys fs
       = (Dict.keys core_fields
          ++ filter (fun k => negb (Dict.mem k core_fields))
               (Dict.keys (fields s)))%list
    /\ (forall k, In k (Dict.keys core_fields) -> In k (Dict.keys fs))
    /\ (forall k, In k (Dict.keys (fields s)) -> In k (Dict.keys fs))
    /\ (forall k d, Dict.get k (fields s) = Some d ->
                    Dict.get k fs = Some d)
    /\ (forall k, Dict.get k (fields s) = None ->
                  Dict.get k fs = Dict.get k core_fields).
Proof.
  intros Hs. destruct (schemas_cases T s Hs) as (_ & Hd & _ & _).
  apply distinct_NoDup in Hd.
  assert (Hc : NoDup (Dict.keys core_fields))
    by (apply distinct_NoDup; reflexivity).
  exists (Dict.merge core_fields (fields s)).
  assert (Hget : forall k,
    Dict.get k (Dict.merge core_fields (fields s))
    = match Dict.get k (fields s) with
      | Some v => Some v
      | None => Dict.get k core_fields
      end) by (intros k; now apply merge_get).
  assert (Hin : forall k d,
    Dict.get k (Dict.merge core_fields (fields s)) = Some d ->
    In k (Dict.keys (Dict.merge core_fields (fields s)))).
  { intros k d H. apply mem_true. unfold Dict.mem. now rewrite H. }
  split; [unfold merged_fields; now rewrite Hs|].
  split; [now apply merge_nodup|].
  split; [now apply merge_keys|].
  split; [|split; [|split]].
  - intros k Hk. rewrite merge_keys by assumption.
    apply in_or_app. now left.
  - intros k Hk. apply mem_true in Hk. unfold Dict.mem in Hk.
    destruct (Dict.get k (fields s)) as [d|] eqn:E; [|discriminate].
    apply (Hin k d). now rewrite Hget, E.
  - intros k d E. now rewrite Hget, E.
  - intros k E. now rewrite Hget, E.
Qed.

Lemma fields_merge_witness :
  let s := {| fields :=
                [ ("stat",
                   with_placeholder "e.g. data.rows.map('%PF').mean() > 0.9"
                     (field "expression"));
                  ("file_rules",
                   with_placeholder "e.g. .*\.csv$" (field "string"));
                  ("delimiter", with_placeholder "," (field "string"));
                  ("comment_character",
                   with_placeholder "#"
                     (with_optional true (field "string"))) ] |} in
  Dict.get "tabular_mdo_eval" schemas = Some s
  /\ exists fs,
       merged_fields "tabular_mdo_eval" = Ok fs
       /\ Dict.keys fs
          = [ "name"; "id"; "failtype"; "check_type"; "stat"; "file_rules";
              "delimiter"; "comment_character" ].
Proof.
  intros s. split; [reflexivity|].
  destruct (fields_merge "tabular_mdo_eval" s eq_refl)
    as (fs & Hm & _ & Hk & _).
  exists fs. split; [exact Hm|]. rewrite Hk. reflexivity.
Defined.

(** ** Fixed fields and unknown kinds *)

Lemma eval_default_shape e meta w :
  exists d w1, eval_default e meta w = Ok (d, w1)
               /\ output w1 = output w /\ screen w1 = screen w.
Proof.
  unfold eval_default, call, ret.
  destruct (Meta.default meta) as [[s|f]|]; eauto.
  destruct (f (urandom e) (draws w)) as [s n]. eauto.
Qed.








(** C5 (as the code has it).  A descriptor whose kind is none of [fixed],
    [string], [select], [expression] is not detected: its pass returns
    normally, shows nothing and stores nothing, and unless its default is a
    callable the loop runs as if the field were absent. *)
Theorem unknown_kind_skipped (e : Env) (ct key : string) (meta : Meta.t)
  (t : string) (w : World) :
  Meta.type meta = Some t ->
  t <> "fixed" -> t <> "string" -> t <> "select" -> t <> "expression" ->
  (exists w1, render_field e ct key meta w = Ok (tt, w1)
              /\ output w1 = output w /\ screen w1 = screen w)
  /\ ((forall f, Meta.default meta <> Some (Callable f)) ->
      render_field e ct key meta w = Ok (tt, w)
      /\ forall pre post w0,
           render_loop e ct (pre ++ (key, meta) :: post)%list w0
           = render_loop e ct (pre ++ post)%list w0).
Proof.
  intros Hty H1 H2 H3 H4.
  apply String.eqb_neq in H1, H2, H3, H4.
  assert (Hstep : forall w',
    render_field e ct key meta w'
    = match eval_default e meta w' with
      | Ok (_, w1) => Ok (tt, w1)
      | Raise x => Raise x
      end).
  { intros w'. unfold render_field, prompt, bind, item, ret.
    rewrite Hty. destruct (eval_default e meta w') as [[d w1]|]; auto.
    rewrite H1, H2, H3, H4. unfold included. simpl.
    rewrite andb_false_r. reflexivity. }
  split.
  - rewrite Hstep.
    destruct (eval_default_shape e meta w) as (d & w1 & -> & Ho & Hs).
    eauto.
  - intros Hnc.
    assert (Hid : forall w', render_field e ct key meta w' = Ok (tt, w')).
    { intros w'. rewrite Hstep. unfold eval_default, ret.
      destruct (Meta.default meta) as [[s|f]|]; auto.
      exfalso. now apply (Hnc f). }
    split; [apply Hid|].
    intros pre post w0. rewrite !render_loop_app.
    destruct (render_loop e ct pre w0) as [[[] w1]|]; auto.
    simpl. unfold bind. now rewrite Hid.
Qed.

Lemma unknown_kind_skipped_witness :
  let meta := field "number" in
  Meta.type meta = Some "number"
  /\ "number" <> "fixed" /\ "number" <> "string" /\ "number" <> "select"
  /\ "number" <> "expression"
  /\ render_field demo_env "postproc_results" "threshold" meta form_start
     = Ok (tt, form_start).
Proof.
  intros meta.
  assert (A1 : "number" <> "fixed") by discriminate.
  assert (A2 : "number" <> "string") by discriminate.
  assert (A3 : "number" <> "select") by discriminate.
  assert (A4 : "number" <> "expression") by discriminate.
  repeat (split; [first [reflexivity | assumption]|]).
  destruct (unknown_kind_skipped demo_env "postproc_results" "threshold"
              meta "number" form_start eq_refl A1 A2 A3 A4) as (_ & H).
  apply H. intros f. discriminate.
Defined.

(** C5 as stated fails: a loop over the core fields and a field of the
    unknown kind [number] does not raise, it returns a document. *)
Lemma malformed_schema_renders :
  match render_loop demo_env "postproc_results"
          (core_fields ++ [("threshold", field "number")])%list form_start
  with
  | Ok (_, w) =>
      Dict.keys (output w) = ["name"; "id"; "failtype"; "check_type"]
  | Raise _ => False
  end.
Proof. vm_compute. reflexivity. Qed.

(** ** Select fields *)
















(** ** Required fields *)






(** ** Generated identifiers *)

Lemma hex_digit_is_hex d : is_hex (hex_digit d).
Proof.
  unfold is_hex, hex_digit.
  destruct (Nat.lt_ge_cases (Z.to_nat d)
              (length (list_ascii_of_string "0123456789abcdef")))
    as [H | H].
  - now apply nth_In.
  - rewrite nth_overflow by exact H. simpl. tauto.
Qed.

Lemma hex_pad_shape width : forall x acc,
  exists p, hex_pad width x acc = p ++ acc
            /\ String.length p = width
            /\ Forall is_hex (list_ascii_of_string p).
Proof.
  induction width as [|n IH]; intros x acc; simpl.
  - exists "". repeat split. constructor.
  - destruct (IH (x / 16)%Z (String (hex_digit (x mod 16)%Z) acc))
      as (p & -> & Hlen & Hall).
    exists (p ++ String (hex_digit (x mod 16)%Z) "").
    split; [|split].
    + clear. induction p as [|c p IHp]; simpl; [reflexivity|].
      now rewrite IHp.
    + rewrite <- Hlen. clear. induction p as [|c p IHp]; simpl; auto.
    + clear - Hall. induction p as [|c p IHp]; simpl.
      * constructor; [apply hex_digit_is_hex | constructor].
      * inversion Hall; subst. constructor; auto.
Qed.

Lemma substring_prefix (P : ascii -> Prop) n : forall s,
  n <= String.length s -> Forall P (list_ascii_of_string s) ->
  String.length (substring 0 n s) = n
  /\ Forall P (list_ascii_of_string (substring 0 n s)).
Proof.
  induction n as [|n IH]; intros s Hlen Hall.
  - destruct s; simpl; split; auto; constructor.
  - destruct s as [|c s]; simpl in *; [lia|].
    inversion Hall as [|? ? Hc Hs]; subst.
    destruct (IH s) as (E1 & E2); [lia | assumption |].
    split; [now rewrite E1 | now constructor].
Qed.

Lemma fresh_id_pattern rnd n : assertion_id (fst (fresh_id rnd n)).
Proof.
  unfold fresh_id, assertion_id, hex. simpl fst.
  exists (substring 0 8 (hex_pad 32 (uuid4 (rnd n)) "")).
  split; [reflexivity|].
  destruct (hex_pad_shape 32 (uuid4 (rnd n)) "") as (p & -> & Hlen & Hall).
  assert (E : p ++ "" = p).
  { clear. induction p as [|c p IHp]; simpl; [reflexivity|].
    now rewrite IHp. }
  rewrite E. apply substring_prefix; auto. lia.
Qed.

(** C3.  The user selects [postproc_results], types the name [t1], chooses
    the processor [flagstat] and leaves the other widgets alone ([stat] and
    [postprocessed_file_pattern] empty).  The Output Document then has
    exactly the keys [name], [id], [failtype], [check_type],
    [processor_key], [item_typ1e], in this order, with the values [t1], the
    generated identifier, [fail], [postproc_results], [flagstat],
    [outputfile]; it has no [stat] and no [postprocessed_file_pattern]. *)
Theorem postproc_example (e : Env) (i : nat) :
  selection e = Some "postproc_results" ->
  typed (user e) "name" = Some "t1" ->
  typed (user e) "id" = None ->
  picked (user e) "failtype" = None ->
  picked (user e) "processor_key" = Some i ->
  nth_error known_processors i = Some "flagstat" ->
  (typed (user e) "stat" = None \/ typed (user e) "stat" = Some "") ->
  (typed (user e) "postprocessed_file_pattern" = None
   \/ typed (user e) "postprocessed_file_pattern" = Some "") ->
  exists w,
    run e = Ok ("postproc_results", w)
    /\ assertion_id (fst (fresh_id (urandom e) 0))
    /\ output w
       = [ ("name", "t1"); ("id", fst (fresh_id (urandom e) 0));
           ("failtype", "fail"); ("check_type", "postproc_results");
           ("processor_key", "flagstat"); ("item_typ1e", "outputfile") ]
    /\ Dict.get "stat" (output w) = None
    /\ Dict.get "postprocessed_file_pattern" (output w) = None.
Proof.
  intros Hsel Hname Hid Hft Hpk Hi Hstat Hpat.
  assert (i = 3) as ->.
  { do 9 (destruct i as [|i]; [try discriminate; try reflexivity|]).
    destruct i; discriminate. }
  rewrite (run_loop e "postproc_results" _ Hsel eq_refl).
  unfold render_loop, render_field, prompt, st_text_input, st_text_area,
    st_selectbox, chosen, eval_default, call, check_expression.
  cbn [Dict.merge Dict.update fold_left core_fields fields Dict.set fst snd
       String.eqb Ascii.eqb Bool.eqb].
  rewrite Hname, Hid, Hft, Hpk.
  destruct Hstat as [-> | ->]; destruct Hpat as [-> | ->];
    cbv -[hex uuid4 substring append urandom typed picked user ast_parse
          assertion_id];
    (eexists; split; [reflexivity|];
     split; [apply (fresh_id_pattern (urandom e) 0)|];
     repeat split; reflexivity).
Qed.

Lemma postproc_example_witness :
  selection demo_env = Some "postproc_results"
  /\ typed (user demo_env) "name" = Some "t1"
  /\ typed (user demo_env) "id" = None
  /\ picked (user demo_env) "failtype" = None
  /\ picked (user demo_env) "processor_key" = Some 3
  /\ nth_error known_processors 3 = Some "flagstat"
  /\ typed (user demo_env) "stat" = None
  /\ typed (user demo_env) "postprocessed_file_pattern" = None
  /\ exists w,
       run demo_env = Ok ("postproc_results", w)
       /\ output w
          = [ ("name", "t1"); ("id", fst (fresh_id (urandom demo_env) 0));
              ("failtype", "fail"); ("check_type", "postproc_results");
              ("processor_key", "flagstat"); ("item_typ1e", "outputfile") ].
Proof.
  repeat (split; [reflexivity|]).
  destruct (postproc_example demo_env 3 eq_refl eq_refl eq_refl eq_refl
              eq_refl eq_refl (or_introl eq_refl) (or_introl eq_refl))
    as (w & Hrun & _ & Hout & _).
  exists w. split; assumption.
Defined.

(** ** Expression fields *)





(** ** Rendering twice *)



Section Rerender.
Variables (u : User) (parse : string -> Parse) (rnd1 rnd2 : nat -> Z).







End Rerender.







(** * Further properties of the loop *)

Lemma render_field_store e ct key meta w w1 :
  render_field e ct key meta w = Ok (tt, w1) ->
  output w1 = output w \/ exists v, output w1 = Dict.set key v (output w).
Proof.
  rewrite render_field_resolve.
  destruct (resolve e ct key meta w) as [[value x]|] eqn:R; [|discriminate].
  destruct (resolve_footprint _ _ _ _ _ _ _ R) as [O _].
  destruct (is_fixed meta || included meta value).
  - unfold store. intros [= <-]. simpl. rewrite O. eauto.
  - intros [= <-]. now left.
Qed.

Lemma loop_keys e ct fs : forall w w',
  NoDup (Dict.keys fs) ->
  (forall k, In k (Dict.keys fs) -> ~ In k (Dict.keys (output w))) ->
  render_loop e ct fs w = Ok (tt, w') ->
  Dict.keys (output w')
  = (Dict.keys (output w)
     ++ filter (fun k => Dict.mem k (output w')) (Dict.keys fs))%list.
Proof.
  induction fs as [|[k m] fs IH]; intros w w' Hnd Hfresh H; simpl in *.
  - unfold ret in H. injection H as <-. now rewrite app_nil_r.
  - unfold bind in H.
    destruct (render_field e ct k m w) as [[[] w1]|] eqn:F; [|discriminate].
    inversion Hnd as [|? ? Hk Hnd']; subst.
    assert (Hmem : Dict.mem k (output w') = Dict.mem k (output w1)).
    { unfold Dict.mem. now rewrite (loop_frame e ct fs w1 w' k Hk H). }
    assert (Hkw : ~ In k (Dict.keys (output w))) by (apply Hfresh; now left).
    destruct (render_field_store e ct k m w w1 F) as [O | (v & O)].
    + rewrite (IH w1 w' Hnd'); auto.
      * rewrite Hmem, O.
        destruct (Dict.mem k (output w)) eqn:E; [|reflexivity].
        apply mem_true in E. contradiction.
      * intros k' Hk'. rewrite O. apply Hfresh. now right.
    + rewrite (IH w1 w' Hnd'); auto.
      * rewrite Hmem, O. unfold Dict.mem at 2. rewrite get_set_same.
        rewrite keys_set.
        destruct (Dict.mem k (output w)) eqn:E.
        { apply mem_true in E. contradiction. }
        now rewrite <- app_assoc.
      * intros k' Hk'. rewrite O, keys_set.
        destruct (Dict.mem k (output w)) eqn:E.
        { apply Hfresh. now right. }
        intros Hin. apply in_app_or in Hin. destruct Hin as [Hin | [-> | []]].
        { revert Hin. apply Hfresh. now right. }
        contradiction.
Qed.

(** X1.  The document keeps the order of the fields.  After a loop over
    fields with distinct keys that started from an empty document, the keys
    of the document are the keys of the fields that got an entry, in the
    order of the fields, and no key occurs twice. *)
Theorem document_keys e ct fs w w' :
  NoDup (Dict.keys fs) ->
  output w = [] ->
  render_loop e ct fs w = Ok (tt, w') ->
  Dict.keys (output w')
  = filter (fun k => Dict.mem k (output w')) (Dict.keys fs)
  /\ NoDup (Dict.keys (output w'))
  /\ forall k, In k (Dict.keys (output w')) -> In k (Dict.keys fs).
Proof.
  intros Hnd Hw H.
  assert (E : Dict.keys (output w')
              = filter (fun k => Dict.mem k (output w')) (Dict.keys fs)).
  { rewrite (loop_keys e ct fs w w' Hnd); [now rewrite Hw | | exact H].
    intros k _. now rewrite Hw. }
  split; [exact E|]. split.
  - rewrite E. now apply NoDup_filter.
  - intros k Hk. rewrite E in Hk. apply filter_In in Hk. tauto.
Qed.

Lemma document_keys_witness :
  NoDup (Dict.keys demo_fields)
  /\ output form_start = []
  /\ render_loop demo_env "postproc_results" demo_fields form_start
     = Ok (tt, demo_world)
  /\ Dict.keys (output demo_world)
     = filter (fun k => Dict.mem k (output demo_world))
         (Dict.keys demo_fields)
  /\ Dict.keys (output demo_world)
     = [ "name"; "id"; "failtype"; "check_type"; "processor_key";
         "item_typ1e" ].
Proof.
  assert (H1 : NoDup (Dict.keys demo_fields))
    by (apply distinct_NoDup; vm_compute; reflexivity).
  assert (H2 : render_loop demo_env "postproc_results" demo_fields form_start
               = Ok (tt, demo_world)) by (vm_compute; reflexivity).
  split; [exact H1|]. split; [reflexivity|]. split; [exact H2|].
  split; [|vm_compute; reflexivity].
  exact (proj1 (document_keys demo_env "postproc_results" demo_fields
                  form_start demo_world H1 eq_refl H2)).
Defined.

(** X2.  No empty entry slips into the document by accident: after a loop
    over distinct keys that started from an empty document, every entry
    belongs to a field of the schema, and its value is not the empty string
    unless that field is marked optional or is fixed. *)
Theorem no_empty_entries e ct fs w w' k v :
  NoDup (Dict.keys fs) ->
  output w = [] ->
  render_loop e ct fs w = Ok (tt, w') ->
  Dict.get k (output w') = Some v ->
  exists meta,
    In (k, meta) fs
    /\ (v <> "" \/ Meta.optional meta = Some true
        \/ Meta.type meta = Some "fixed").
Proof.
  intros Hnd Hw H Hget.
  assert (Hk : In k (Dict.keys fs)).
  { assert (Hfresh : forall k', In k' (Dict.keys fs) ->
                       ~ In k' (Dict.keys (output w)))
      by (intros k' _; now rewrite Hw).
    pose proof (loop_keys e ct fs w w' Hnd Hfresh H) as E.
    assert (Hin : In k (Dict.keys (output w'))).
    { apply mem_true. unfold Dict.mem. now rewrite Hget. }
    rewrite E, Hw in Hin. simpl in Hin. apply filter_In in Hin. tauto. }
  unfold Dict.keys in Hk. apply in_map_iff in Hk.
  destruct Hk as ([k' meta] & Ek & Hin). simpl in Ek. subst k'.
  exists meta. split; [exact Hin|].
  destruct (loop_reaches e ct fs w w' k meta Hnd H Hin)
    as (pre & post & wk & value & wk1 & _ & _ & _ & Hv).
  rewrite Hget, Hw in Hv. simpl in Hv.
  destruct (is_fixed meta) eqn:Ef.
  - right. right. unfold is_fixed in Ef.
    destruct (Meta.type meta) as [t|]; [|discriminate].
    apply String.eqb_eq in Ef. now subst.
  - simpl in Hv. destruct (included meta value) eqn:Ei; [|discriminate].
    subst value. apply included_rule in Ei.
    destruct Ei as [(s & [= <-] & Hs) | (Ho & _)]; auto.
Qed.

Lemma no_empty_entries_witness :
  NoDup (Dict.keys demo_fields)
  /\ output form_start = []
  /\ render_loop demo_env "postproc_results" demo_fields form_start
     = Ok (tt, demo_world)
  /\ Dict.get "name" (output demo_world) = Some "t1"
  /\ exists meta,
       In ("name", meta) demo_fields
       /\ ("t1" <> "" \/ Meta.optional meta = Some true
           \/ Meta.type meta = Some "fixed").
Proof.
  assert (H1 : NoDup (Dict.keys demo_fields))
    by (apply distinct_NoDup; vm_compute; reflexivity).
  assert (H2 : render_loop demo_env "postproc_results" demo_fields form_start
               = Ok (tt, demo_world)) by (vm_compute; reflexivity).
  assert (H3 : Dict.get "name" (output demo_world) = Some "t1")
    by (vm_compute; reflexivity).
  split; [exact H1|]. split; [reflexivity|]. split; [exact H2|].
  split; [exact H3|].
  exact (no_empty_entries demo_env "postproc_results" demo_fields
           form_start demo_world "name" "t1" H1 eq_refl H2 H3).
Defined.











Lemma labels_app a b : labels (a ++ b) = (labels a ++ labels b)%list.
Proof.
  induction a as [|c a IH]; simpl; auto.
  destruct (widget_label c); simpl; now rewrite IH.
Qed.

Lemma render_field_calls e ct key meta w w1 :
  render_field e ct key meta w = Ok (tt, w1) ->
  exists calls,
    screen w1 = (screen w ++ calls)%list
    /\ labels calls = if prompted meta then [key] else [].
Proof.
  unfold render_field, prompted, prompt, bind, item, raise, ret.
  destruct (Meta.type meta) as [t|]; [|discriminate].
  destruct (eval_default_shape e meta w) as (d & w0 & -> & _ & <-).
  destruct (t =? "fixed") eqn:Ef.
  { apply String.eqb_eq in Ef. subst t. simpl.
    destruct (flag (Meta.value_from_parent meta));
      [|destruct (Meta.value meta); [|discriminate]];
      unfold store; intros [= <-]; exists []; simpl;
      now rewrite app_nil_r. }
  destruct (t =? "string").
  { unfold st_text_input, display, bind, ret.
    destruct (included meta _); unfold store; intros [= <-]; simpl; eauto. }
  destruct (t =? "expression").
  { unfold st_text_area, check_expression, display, bind, ret.
    destruct (blank _); [|destruct (ast_parse e _)];
      destruct (included meta _); unfold store, ret; intros [= <-]; simpl;
      rewrite <- ?app_assoc; eauto. }
  destruct (t =? "select").
  { destruct (Meta.options meta) as [opts|]; [|discriminate].
    unfold st_selectbox, display, bind, ret.
    destruct (included meta _); unfold store; intros [= <-]; simpl; eauto. }
  destruct (included meta None); unfold store; intros [= <-];
    exists []; simpl; now rewrite app_nil_r.
Qed.

(** X6.  One widget per field.  A loop that returns only adds calls to the
    page, and the widgets it adds are, in order, one for each field whose
    kind is [string], [expression] or [select], labelled with the key of
    the field; fixed fields and fields of another kind add none. *)
Theorem one_widget_per_field e ct fs w w' :
  render_loop e ct fs w = Ok (tt, w') ->
  exists calls,
    screen w' = (screen w ++ calls)%list
    /\ labels calls = map fst (filter (fun kv => prompted (snd kv)) fs).
Proof.
  revert w. induction fs as [|[key meta] fs IH]; intros w H; simpl in *.
  - unfold ret in H. injection H as <-. exists []. now rewrite app_nil_r.
  - unfold bind in H.
    destruct (render_field e ct key meta w) as [[[] w1]|] eqn:F;
      [|discriminate].
    destruct (render_field_calls e ct key meta w w1 F) as (c1 & S1 & L1).
    destruct (IH w1 H) as (c2 & S2 & L2).
    exists (c1 ++ c2)%list. split.
    + now rewrite S2, S1, app_assoc.
    + rewrite labels_app, L1, L2. destruct (prompted meta); reflexivity.
Qed.

Lemma one_widget_per_field_witness :
  render_loop demo_env "postproc_results" demo_fields form_start
  = Ok (tt, demo_world)
  /\ exists calls,
       screen demo_world = (screen form_start ++ calls)%list
       /\ labels calls
          = [ "name"; "id"; "failtype"; "processor_key"; "stat";
              "postprocessed_file_pattern" ].
Proof.
  assert (H : render_loop demo_env "postproc_results" demo_fields form_start
              = Ok (tt, demo_world)) by (vm_compute; reflexivity).
  split; [exact H|].
  destruct (one_widget_per_field demo_env "postproc_results" demo_fields
              form_start demo_world H) as (calls & S1 & L1).
  exists calls. split; [exact S1|]. rewrite L1. reflexivity.
Defined.

Lemma render_field_own_widget e e' ct key meta w :
  typed (user e') key = typed (user e) key ->
  picked (user e') key = picked (user e) key ->
  urandom e' = urandom e -> ast_parse e' = ast_parse e ->
  render_field e' ct key meta w = render_field e ct key meta w.
Proof.
  intros Ht Hp Hr Ha.
  unfold render_field, prompt, st_text_input, st_text_area, st_selectbox,
    chosen, check_expression, eval_default, call.
  now rewrite Ht, Hp, Hr, Ha.
Qed.

(** X7.  A field reads only its own widget.  Two pages on which the user
    left the same text and the same choice in the widgets labelled with the
    keys of the fields give the same result of the loop, document, page and
    exception alike, whatever else differs in what the user did. *)
Theorem reads_own_widget (e e' : Env) ct fs w :
  (forall k, In k (Dict.keys fs) ->
     typed (user e') k = typed (user e) k
     /\ picked (user e') k = picked (user e) k) ->
  urandom e' = urandom e -> ast_parse e' = ast_parse e ->
  render_loop e' ct fs w = render_loop e ct fs w.
Proof.
  intros Hu Hr Ha. revert w.
  induction fs as [|[key meta] fs IH]; intros w; simpl; [reflexivity|].
  unfold bind.
  destruct (Hu key (or_introl eq_refl)) as [Ht Hp].
  rewrite (render_field_own_widget e e' ct key meta w Ht Hp Hr Ha).
  destruct (render_field e ct key meta w) as [[[] w1]|]; [|reflexivity].
  apply IH. intros k Hk. apply Hu. now right.
Qed.

Lemma reads_own_widget_witness :
  let e' := {| user := {| typed := fun label =>
                             if label =? "name" then Some "t1"
                             else if label =? "notes" then Some "ignored"
                             else None;
                          picked := fun label =>
                             if label =? "processor_key" then Some 3
                             else if label =? "colour" then Some 7
                             else None |};
               urandom := urandom demo_env;
               ast_parse := ast_parse demo_env |} in
  (forall k, In k (Dict.keys demo_fields) ->
     typed (user e') k = typed (user demo_env) k
     /\ picked (user e') k = picked (user demo_env) k)
  /\ render_loop e' "postproc_results" demo_fields form_start
     = render_loop demo_env "postproc_results" demo_fields form_start.
Proof.
  intros e'.
  assert (H : forall k, In k (Dict.keys demo_fields) ->
     typed (user e') k = typed (user demo_env) k
     /\ picked (user e') k = picked (user demo_env) k).
  { intros k Hk. simpl in Hk.
    repeat (destruct Hk as [<- | Hk]; [split; reflexivity|]).
    contradiction. }
  split; [exact H|].
  exact (reads_own_widget demo_env e' "postproc_results" demo_fields
           form_start H eq_refl eq_refl).
Defined.

(** * The identifiers of the embedded component *)

Lemma append_empty_r s : s ++ "" = s.
Proof. induction s as [|c s IH]; simpl; [reflexivity | now rewrite IH]. Qed.

Lemma hex_shape i :
  String.length (hex i) = 32 /\ Forall is_hex (list_ascii_of_string (hex i)).
Proof.
  unfold hex. destruct (hex_pad_shape 32 i "") as (p & -> & Hlen & Hall).
  now rewrite append_empty_r.
Qed.

Lemma replace_char_app old new a b :
  replace_char old new (a ++ b)
  = replace_char old new a ++ replace_char old new b.
Proof.
  induction a as [|c a IH]; simpl; [reflexivity|].
  rewrite IH. destruct (Ascii.eqb c old); simpl; [|reflexivity].
  generalize (replace_char old new a), (replace_char old new b).
  intros x y. clear. induction new as [|d new IHn]; simpl; [reflexivity|].
  now rewrite IHn.
Qed.

Lemma replace_char_absent old new s :
  Forall (fun c => c <> old) (list_ascii_of_string s) ->
  replace_char old new s = s.
Proof.
  induction s as [|c s IH]; simpl; intros H; [reflexivity|].
  inversion H as [|? ? Hc Hs]; subst.
  destruct (Ascii.eqb c old) eqn:E.
  - apply Ascii.eqb_eq in E. contradiction.
  - now rewrite IH.
Qed.

Lemma substring_forall (P : ascii -> Prop) : forall s n m,
  Forall P (list_ascii_of_string s) ->
  Forall P (list_ascii_of_string (substring n m s)).
Proof.
  induction s as [|c s IH]; intros n m H.
  - destruct n, m; simpl; constructor.
  - inversion H as [|? ? Hc Hs]; subst.
    destruct n as [|n]; simpl.
    + destruct m as [|m]; simpl; [constructor|].
      constructor; [exact Hc | now apply IH].
    + now apply IH.
Qed.

Lemma hex_no_dash c : is_hex c -> c <> "-"%char.
Proof.
  unfold is_hex. simpl. intros H ->.
  repeat (destruct H as [H | H]; [discriminate|]). contradiction.
Qed.

Lemma groups_join h :
  String.length h = 32 ->
  substring 0 8 h ++ substring 8 4 h ++ substring 12 4 h
  ++ substring 16 4 h ++ substring 20 12 h = h.
Proof.
  intros H.
  do 32 (destruct h as [|? h]; [discriminate|]).
  destruct h; [reflexivity | discriminate].
Qed.

Lemma is_hex_name_char c : is_hex c -> is_name_char c.
Proof.
  unfold is_hex, is_name_char. simpl. intros H.
  repeat (destruct H as [<- | H]; [tauto|]). contradiction.
Qed.

Lemma dashes_removed rand : unique_id rand = hex (uuid4 rand).
Proof.
  destruct (hex_shape (uuid4 rand)) as [Hlen Hall].
  unfold unique_id, uuid_str.
  assert (Hsub : forall n m,
    replace_char "-" "" (substring n m (hex (uuid4 rand)))
    = substring n m (hex (uuid4 rand))).
  { intros n m. apply replace_char_absent.
    apply substring_forall.
    eapply Forall_impl; [|exact Hall]. apply hex_no_dash. }
  rewrite !replace_char_app, !Hsub.
  change (replace_char "-" "" "-") with "".
  exact (groups_join (hex (uuid4 rand)) Hlen).
Qed.

(** X8.  The identifier of the component is the hexadecimal form of the
    UUID: removing the dashes from [str(uuid)] gives the thirty-two
    hexadecimal digits of [uuid.hex].  So [unique_id], [text_id] and
    [toast_id] hold only lower-case letters, digits and underscores,
    whatever the draw. *)
Theorem unique_id_hex (rand : Z) :
  unique_id rand = hex (uuid4 rand)
  /\ String.length (unique_id rand) = 32
  /\ Forall is_hex (list_ascii_of_string (unique_id rand))
  /\ Forall is_name_char (list_ascii_of_string (text_id (unique_id rand)))
  /\ Forall is_name_char (list_ascii_of_string (toast_id (unique_id rand))).
Proof.
  destruct (hex_shape (uuid4 rand)) as [Hlen Hall].
  rewrite (dashes_removed rand). repeat split; auto.
  - unfold text_id. simpl.
    repeat (constructor; [unfold is_name_char; simpl; tauto|]).
    eapply Forall_impl; [|exact Hall]. apply is_hex_name_char.
  - unfold toast_id. simpl.
    repeat (constructor; [unfold is_name_char; simpl; tauto|]).
    eapply Forall_impl; [|exact Hall]. apply is_hex_name_char.
Qed.

Lemma hex_digit_inj a b :
  (0 <= a < 16)%Z -> (0 <= b < 16)%Z -> hex_digit a = hex_digit b -> a = b.
Proof.
  intros Ha Hb H. unfold hex_digit in H.
  assert (Hnd : NoDup (list_ascii_of_string "0123456789abcdef")).
  { simpl. repeat (constructor; [simpl; intuition discriminate|]).
    constructor. }
  assert (E : Z.to_nat a = Z.to_nat b).
  { apply (proj1 (NoDup_nth _ "0"%char) Hnd); simpl; try lia. exact H. }
  lia.
Qed.

Lemma hex_pad_inj width : forall x y acc acc',
  String.length acc = String.length acc' ->
  hex_pad width x acc = hex_pad width y acc' ->
  acc = acc' /\ (x mod 16 ^ Z.of_nat width = y mod 16 ^ Z.of_nat width)%Z.
Proof.
  induction width as [|n IH]; intros x y acc acc' Hlen H.
  - simpl in H. split; [exact H|]. simpl. now rewrite !Z.mod_1_r.
  - simpl hex_pad in H.
    destruct (IH (x / 16)%Z (y / 16)%Z
                (String (hex_digit (x mod 16)) acc)
                (String (hex_digit (y mod 16)) acc')
                (f_equal S Hlen) H) as [Ha Hm].
    injection Ha as Hd ->. split; [reflexivity|].
    apply hex_digit_inj in Hd;
      try (apply Z.mod_pos_bound; lia).
    rewrite Nat2Z.inj_succ, Z.pow_succ_r by lia.
    rewrite !(Z.rem_mul_r _ 16) by lia. now rewrite Hd, Hm.
Qed.

Lemma uuid4_range rand : (uuid4 rand mod 2 ^ 128 = uuid4 rand)%Z.
Proof.
  apply Z.bits_inj'. intros n Hn.
  destruct (Z.lt_ge_cases n 128) as [Hlt | Hge].
  - now rewrite Z.mod_pow2_bits_low.
  - rewrite Z.mod_pow2_bits_high by lia. symmetry. unfold uuid4.
    rewrite Z.lor_spec, Z.land_spec, Z.lor_spec, Z.land_spec.
    rewrite Z.mod_pow2_bits_high by lia.
    rewrite (Z.bits_above_log2 (Z.shiftl 32768 48) n);
      [ | vm_compute; discriminate
        | change (Z.log2 (Z.shiftl 32768 48)) with 63%Z; lia ].
    rewrite (Z.bits_above_log2 (Z.shiftl 4 76) n);
      [ | vm_compute; discriminate
        | change (Z.log2 (Z.shiftl 4 76)) with 78%Z; lia ].
    reflexivity.
Qed.

(** X9.  Distinct UUIDs give distinct identifiers: the hexadecimal form
    determines the UUID, so two components have the same [unique_id]
    exactly when their UUIDs are the same, and then also the same [text_id]
    and [toast_id]; the text and the toast of one component never share an
    identifier. *)
Theorem unique_id_injective (r1 r2 : Z) :
  (unique_id r1 = unique_id r2 <-> uuid4 r1 = uuid4 r2)
  /\ (text_id (unique_id r1) = text_id (unique_id r2)
      <-> uuid4 r1 = uuid4 r2)
  /\ text_id (unique_id r1) <> toast_id (unique_id r2).
Proof.
  assert (Hinj : unique_id r1 = unique_id r2 -> uuid4 r1 = uuid4 r2).
  { intros H.
    rewrite !dashes_removed in H.
    unfold hex in H.
    destruct (hex_pad_inj 32 (uuid4 r1) (uuid4 r2) "" "" eq_refl H)
      as [_ Hm].
    change (16 ^ Z.of_nat 32)%Z with (2 ^ 128)%Z in Hm.
    now rewrite !uuid4_range in Hm. }
  split; [|split].
  - split; [exact Hinj|]. unfold unique_id. now intros ->.
  - split; [|unfold unique_id; now intros ->].
    unfold text_id. intros H. apply Hinj.
    simpl in H. now injection H.
  - unfold text_id, toast_id. simpl. discriminate.
Qed.

(** * The script as a whole *)





(** X12.  The dict display [{**a, **b}] of line 47 in general: for two
    dictionaries, each with distinct keys, the merge has the keys of [a] in
    their order followed by the keys of [b] that [a] lacks, no key twice,
    and looking a key up gives the entry of [b] when [b] has one, the entry
    of [a] otherwise.  A type-specific field named like a core field would
    replace its descriptor and keep its place. *)
Theorem merge_overrides {V : Type} (a b : Dict.t V) :
  NoDup (Dict.keys a) -> NoDup (Dict.keys b) ->
  Dict.keys (Dict.merge a b)
  = (Dict.keys a ++ filter (fun k => negb (Dict.mem k a)) (Dict.keys b))%list
  /\ NoDup (Dict.keys (Dict.merge a b))
  /\ forall k,
       Dict.get k (Dict.merge a b)
       = match Dict.get k b with
         | Some v => Some v
         | None => Dict.get k a
         end.
Proof.
  intros Ha Hb. split; [now apply merge_keys|].
  split; [now apply merge_nodup|]. intros k. now apply merge_get.
Qed.

Lemma merge_overrides_witness :
  let a := [("name", 1); ("stat", 2)] in
  let b := [("stat", 3); ("delimiter", 4)] in
  NoDup (Dict.keys a) /\ NoDup (Dict.keys b)
  /\ Dict.keys (Dict.merge a b) = ["name"; "stat"; "delimiter"]
  /\ Dict.get "stat" (Dict.merge a b) = Some 3.
Proof.
  intros a b.
  assert (Ha : NoDup (Dict.keys a))
    by (apply distinct_NoDup; reflexivity).
  assert (Hb : NoDup (Dict.keys b))
    by (apply distinct_NoDup; reflexivity).
  split; [exact Ha|]. split; [exact Hb|].
  destruct (merge_overrides a b Ha Hb) as (Hk & _ & Hg).
  split; [rewrite Hk; reflexivity | rewrite Hg; reflexivity].
Defined.


(** X13.  What the box shows is what is stored.  For a string field the
    user did not touch, the text the widget shows and the entry stored are
    the same default: a callable default is called once per pass, not once
    for the page and once for the document.  The entry is stored when that
    default is not empty or the field is optional. *)
Theorem untouched_default_stored e ct key meta w :
  Meta.type meta = Some "string" ->
  typed (user e) key = None ->
  exists d ph w1,
    render_field e ct key meta w = Ok (tt, w1)
    /\ screen w1 = (screen w ++ [TextInput key d ph])%list
    /\ (d <> "" \/ Meta.optional meta = Some true ->
        Dict.get key (output w1) = Some d)
    /\ (d = "" -> Meta.optional meta <> Some true ->
        output w1 = output w).
Proof.
  intros Hty Ht.
  unfold render_field, prompt, bind, item, ret. rewrite Hty.
  destruct (eval_default_shape e meta w) as (d & w0 & -> & Ho & Hs).
  simpl. unfold st_text_input, display, bind, ret. rewrite Ht.
  exists d, match Meta.placeholder meta with Some p => p | None => "" end.
  destruct (included meta (Some d)) eqn:Hi.
  - unfold store. eexists. split; [reflexivity|]. simpl.
    split; [now rewrite Hs|]. split.
    + intros _. apply get_set_same.
    + intros -> Hopt. exfalso. apply included_rule in Hi.
      destruct Hi as [(s & [= <-] & Hne) | (Hopt' & _)]; congruence.
  - eexists. split; [reflexivity|]. simpl.
    split; [now rewrite Hs|]. split.
    + intros Hc. exfalso.
      assert (Hr : rule meta (Some d)).
      { destruct Hc as [Hne | Hopt].
        - left. exists d. split; [reflexivity | exact Hne].
        - destruct d; [right; split; auto|].
          left. eexists. split; [reflexivity | discriminate]. }
      apply included_rule in Hr. congruence.
    + intros _ _. exact Ho.
Qed.

Lemma untouched_default_stored_witness :
  let meta := with_default (Callable fresh_id)
                (with_optional true (field "string")) in
  Meta.type meta = Some "string"
  /\ typed (user demo_env) "id" = None
  /\ exists d ph w1,
       render_field demo_env "postproc_results" "id" meta form_start
       = Ok (tt, w1)
       /\ screen w1 = (screen form_start ++ [TextInput "id" d ph])%list
       /\ Dict.get "id" (output w1) = Some d.
Proof.
  intros meta. split; [reflexivity|]. split; [reflexivity|].
  destruct (untouched_default_stored demo_env "postproc_results" "id" meta
              form_start eq_refl eq_refl)
    as (d & ph & w1 & H1 & H2 & H3 & _).
  exists d, ph, w1. repeat split; auto.
Defined.

